(** * Diamonds pipeline: [analysis.py]

    A shallow embedding of the cleaning, feature-engineering and export
    steps of the script, and the properties of its specification.

    Modelling conventions.
    - A pandas [DataFrame] is the list of its rows, in row order.  The schema
      is typed the way [read_csv] infers it for a diamonds file: [carat] and
      [price] are numeric columns, [cut] and [color] are string columns, and
      every further column of the file is carried along in [others].
    - A numeric cell is [num]: the finite values are exact rationals, next to
      the two infinities and NaN of the float columns.  Rounding error of
      binary64 arithmetic and the sign of zero are not modelled.
    - A string cell is [option string], [None] being the missing value; the
      characters are 7-bit ASCII. *)

From Stdlib Require Import ZArith QArith Qcanon Qround Qabs Lia Lqa Bool List.
From Stdlib Require Import Ascii String.
Import ListNotations.

Local Open Scope string_scope.
Local Open Scope list_scope.

(* ================================================================== *)
(** ** Numeric cells *)

(** A float64 cell: NaN, the infinities, or a finite value. *)
Inductive num : Type :=
| NaN
| NegInf
| Fin (q : Qc)
| PosInf.

Module Num.

Definition of_Z (z : Z) : num := Fin (Q2Qc (inject_Z z)).
Definition of_Q (q : Q) : num := Fin (Q2Qc q).

Definition Qc_ltb (p q : Qc) : bool :=
  match (p ?= q)%Qc with Lt => true | _ => false end.

Definition Qc_leb (p q : Qc) : bool :=
  match (p ?= q)%Qc with Gt => false | _ => true end.

(** [a < b] on cells; every comparison with NaN is false. *)
Definition ltb (a b : num) : bool :=
  match a, b with
  | NaN, _ | _, NaN => false
  | NegInf, NegInf => false
  | NegInf, _ => true
  | Fin _, NegInf => false
  | Fin p, Fin q => Qc_ltb p q
  | Fin _, PosInf => true
  | PosInf, _ => false
  end.

(** [a <= b] on cells. *)
Definition leb (a b : num) : bool :=
  match a, b with
  | NaN, _ | _, NaN => false
  | NegInf, _ => true
  | Fin _, NegInf => false
  | Fin p, Fin q => Qc_leb p q
  | Fin _, PosInf => true
  | PosInf, PosInf => true
  | PosInf, _ => false
  end.

Definition isna (a : num) : bool :=
  match a with NaN => true | _ => false end.

Definition is_finite (a : num) : bool :=
  match a with Fin _ => true | _ => false end.

(** True division of two float cells.  Dividing by zero does not raise:
    it gives an infinity, or NaN for [0 / 0].  A finite quotient is the
    exact rational; the code stores the binary64 value next to it, which
    can differ in the last place (2261 / 2.24 is stored as
    1009.3749999999999). *)
Definition div (a b : num) : num :=
  match a, b with
  | NaN, _ | _, NaN => NaN
  | Fin p, Fin q =>
      if Qc_eq_bool q 0 then
        if Qc_eq_bool p 0 then NaN
        else if Qc_ltb 0 p then PosInf else NegInf
      else Fin (p / q)%Qc
  | Fin _, NegInf | Fin _, PosInf => Fin 0%Qc
  | PosInf, Fin q => if Qc_leb 0 q then PosInf else NegInf
  | NegInf, Fin q => if Qc_leb 0 q then NegInf else PosInf
  | PosInf, PosInf | PosInf, NegInf
  | NegInf, PosInf | NegInf, NegInf => NaN
  end.

(** Round to the nearest integer, ties to the even one ([rint]). *)
Definition rint (x : Q) : Z :=
  let f := Qfloor x in
  match (x - inject_Z f ?= 1 # 2)%Q with
  | Lt => f
  | Gt => (f + 1)%Z
  | Eq => if Z.even f then f else (f + 1)%Z
  end.

(** [Series.round(2)]: scale by 100, [rint], scale back, here on exact
    rationals.  On a tie of the exact quotient the stored binary64 value
    can be one hundredth away from this one. *)
Definition round2 (a : num) : num :=
  match a with
  | Fin q => Fin (Q2Qc (inject_Z (rint (q * 100)) / 100))
  | other => other
  end.

Definition eq_dec (a b : num) : {a = b} + {a <> b}.
Proof. decide equality. apply Qc_eq_dec. Defined.

End Num.

(* ================================================================== *)
(** ** Python string methods used on the [cut] column (ASCII) *)

Module Str.

Definition code (c : ascii) : nat := nat_of_ascii c.

(** [str.isspace] on one ASCII character: TAB..CR, FS..US and space. *)
Definition isspace (c : ascii) : bool :=
  let n := code c in
  ((9 <=? n) && (n <=? 13) || (28 <=? n) && (n <=? 32))%nat.

Definition isupper (c : ascii) : bool :=
  let n := code c in ((65 <=? n) && (n <=? 90))%nat.

Definition islower (c : ascii) : bool :=
  let n := code c in ((97 <=? n) && (n <=? 122))%nat.

Definition is_cased (c : ascii) : bool := isupper c || islower c.

Definition upper (c : ascii) : ascii :=
  if islower c then ascii_of_nat (code c - 32) else c.

Definition lower (c : ascii) : ascii :=
  if isupper c then ascii_of_nat (code c + 32) else c.

Fixpoint lstrip (s : string) : string :=
  match s with
  | EmptyString => EmptyString
  | String c s' => if isspace c then lstrip s' else s
  end.

Fixpoint rstrip (s : string) : string :=
  match s with
  | EmptyString => EmptyString
  | String c s' =>
      match rstrip s' with
      | EmptyString => if isspace c then EmptyString else String c EmptyString
      | rest => String c rest
      end
  end.

(** [str.strip()]: leading and trailing whitespace removed. *)
Definition strip (s : string) : string := rstrip (lstrip s).

(** The loop of [str.title()]: a character that follows a cased one is
    lowercased, any other is titlecased; the flag is the casedness of the
    character as it stood in the input. *)
Fixpoint title_from (previous_is_cased : bool) (s : string) : string :=
  match s with
  | EmptyString => EmptyString
  | String c s' =>
      String (if previous_is_cased then lower c else upper c)
             (title_from (is_cased c) s')
  end.

Definition title (s : string) : string := title_from false s.

(** All characters below 128: the strings on which [strip] and [title]
    above are Python's. *)
Fixpoint is_ascii (s : string) : bool :=
  match s with
  | EmptyString => true
  | String c s' => (code c <? 128)%nat && is_ascii s'
  end.

(** No whitespace at the left end. *)
Definition lstripped (s : string) : Prop :=
  match s with
  | EmptyString => True
  | String c _ => isspace c = false
  end.

(** No whitespace at the right end. *)
Fixpoint rstripped (s : string) : Prop :=
  match s with
  | EmptyString => True
  | String c EmptyString => isspace c = false
  | String _ s' => rstripped s'
  end.

(** Two strings with whitespace at the same positions. *)
Inductive space_alike : string -> string -> Prop :=
| alike_nil : space_alike EmptyString EmptyString
| alike_cons c c' s s' :
    isspace c' = isspace c -> space_alike s s' ->
    space_alike (String c s) (String c' s').

End Str.

(* ================================================================== *)
(** ** Rows and tables *)

(** A cell of a pass-through column. *)
Inductive value : Type :=
| VNum (x : num)
| VStr (s : option string).

Definition value_isna (v : value) : bool :=
  match v with
  | VNum x => Num.isna x
  | VStr None => true
  | VStr (Some _) => false
  end.

(** One row of the frame as loaded. *)
Record row : Type := mkRow {
  carat : num;
  cut : option string;
  color : option string;
  price : num;
  others : list value
}.

Definition table : Type := list row.

Definition value_eq_dec (a b : value) : {a = b} + {a <> b}.
Proof.
  decide equality.
  - apply Num.eq_dec.
  - decide equality. apply string_dec.
Defined.

Definition row_eq_dec (a b : row) : {a = b} + {a <> b}.
Proof.
  decide equality.
  - apply (list_eq_dec value_eq_dec).
  - apply Num.eq_dec.
  - decide equality. apply string_dec.
  - decide equality. apply string_dec.
  - apply Num.eq_dec.
Defined.

Definition row_eqb (a b : row) : bool :=
  if row_eq_dec a b then true else false.

(* ================================================================== *)
(** ** 3. CLEAN *)

(** [DataFrame.drop_duplicates()] (keep='first'): a row is dropped when an
    earlier row has the same value in every column.  [seen] holds the rows
    met so far. *)
Fixpoint drop_duplicates_from (seen : list row) (df : table) : table :=
  match df with
  | [] => []
  | r :: rest =>
      if existsb (row_eqb r) seen
      then drop_duplicates_from seen rest
      else r :: drop_duplicates_from (r :: seen) rest
  end.

Definition drop_duplicates (df : table) : table :=
  drop_duplicates_from [] df.

(** A row has a null when any of its cells is missing. *)
Definition has_null (r : row) : bool :=
  Num.isna (carat r)
  || match cut r with None => true | Some _ => false end
  || match color r with None => true | Some _ => false end
  || Num.isna (price r)
  || existsb value_isna (others r).

(** [DataFrame.dropna()]. *)
Definition dropna (df : table) : table :=
  filter (fun r => negb (has_null r)) df.

Definition zero : num := Num.of_Z 0.

(** [df[df["price"] > 0]] *)
Definition price_positive (df : table) : table :=
  filter (fun r => Num.ltb zero (price r)) df.

(** [df[df["carat"] > 0]] *)
Definition carat_positive (df : table) : table :=
  filter (fun r => Num.ltb zero (carat r)) df.

(** [.str.strip().str.title()] on one cell; a missing cell stays missing. *)
Definition standardise (c : option string) : option string :=
  match c with
  | Some s => Some (Str.title (Str.strip s))
  | None => None
  end.

(** [df["cut"] = df["cut"].str.strip().str.title()] on one row. *)
Definition standardise_cut (r : row) : row :=
  mkRow (carat r) (standardise (cut r)) (color r) (price r) (others r).

(** The rows that are kept, before the [cut] column is rewritten. *)
Definition survivors (df : table) : table :=
  let df := drop_duplicates df in
  let df := dropna df in
  let df := price_positive df in
  let df := carat_positive df in
  df.

(** The cleaning section of the script, statement by statement. *)
Definition clean (df : table) : table :=
  let df := drop_duplicates df in
  let df := dropna df in
  let df := price_positive df in
  let df := carat_positive df in
  map standardise_cut df.

(* ================================================================== *)
(** ** 4. TRANSFORM *)

(** A row of the frame once the three derived columns are added. *)
Record xrow : Type := mkXRow {
  base :> row;
  price_per_carat : num;
  value_category : string;
  price_band : option string
}.

Definition xtable : Type := list xrow.

Definition categorise (ppc : num) : string :=
  if Num.ltb ppc (Num.of_Z 2000) then "Budget"
  else if Num.ltb ppc (Num.of_Z 5000) then "Mid-Range"
  else "Premium".

Definition bins : list num :=
  [Num.of_Z 0; Num.of_Z 500; Num.of_Z 1000; Num.of_Z 2000; Num.of_Z 5000].

Definition labels : list string :=
  ["<$500"; "$500-$1k"; "$1k-$2k"; "$2k+"].

(** [searchsorted(side="left")] on an increasing array: the number of
    breakpoints strictly below [x]. *)
Fixpoint searchsorted_left (edges : list num) (x : num) : nat :=
  match edges with
  | [] => 0
  | b :: rest => if Num.ltb b x then S (searchsorted_left rest x) else 0
  end.

(** [pd.cut(x, bins, labels)] with the default [right=True]: the bin index
    comes from [searchsorted]; a missing value, an index of 0 (at or below
    the first edge) and an index of [len(bins)] (above the last edge) give
    no label. *)
Definition pd_cut (x : num) : option string :=
  let ids := searchsorted_left bins x in
  if Num.isna x || (ids =? List.length bins)%nat || (ids =? 0)%nat
  then None
  else nth_error labels (ids - 1).

(** The three assignments of the section, on one row. *)
Definition add_features (r : row) : xrow :=
  let ppc := Num.round2 (Num.div (price r) (carat r)) in
  mkXRow r ppc (categorise ppc) (pd_cut (price r)).

Definition transform (df : table) : xtable := map add_features df.

(** How a stage ends: with its result, or with an exception.  The classes
    are Python's [ArithmeticError] (with [ZeroDivisionError] below it),
    [OSError], the one file access raises, and [ValueError], the one the
    plotting calls raise on data they cannot draw. *)
Inductive exception : Type :=
| ArithmeticError
| OSError
| ValueError.

Inductive outcome (A : Type) : Type :=
| Returns (a : A)
| Raises (e : exception).

Arguments Returns {A} a.
Arguments Raises {A} e.

(** No statement of the section raises: the division is the element-wise
    one of two numeric columns. *)
Definition transformer (df : table) : outcome xtable :=
  Returns (transform df).

(* ================================================================== *)
(** ** 5. ANALYSE *)

Module Analyse.

Definition add (a b : num) : num :=
  match a, b with
  | NaN, _ | _, NaN => NaN
  | PosInf, NegInf | NegInf, PosInf => NaN
  | PosInf, _ | _, PosInf => PosInf
  | NegInf, _ | _, NegInf => NegInf
  | Fin p, Fin q => Fin (p + q)%Qc
  end.

(** [Series.mean()], which skips missing values. *)
Definition mean (xs : list num) : num :=
  let ys := filter (fun x => negb (Num.isna x)) xs in
  match ys with
  | [] => NaN
  | _ => Num.div (fold_left add ys (Num.of_Z 0))
                 (Num.of_Z (Z.of_nat (List.length ys)))
  end.

Definition key_is (k : string) (c : option string) : bool :=
  match c with
  | Some s => String.eqb s k
  | None => false
  end.

(** [df.groupby(key)[col].mean().round(2)], read at the group [k];
    [None] when no row has that key. *)
Definition groupby_mean (key : xrow -> option string) (col : xrow -> num)
    (df : xtable) (k : string) : option num :=
  match filter (fun r => key_is k (key r)) df with
  | [] => None
  | grp => Some (Num.round2 (mean (map col grp)))
  end.

(** [df["value_category"].value_counts()], read at one category. *)
Definition value_counts (df : xtable) (c : string) : nat :=
  count_occ string_dec (map value_category df) c.

(** What the section prints, up to the order of the printed series; the
    correlation coefficient, a square root of floats, is left out. *)
Record report : Type := mkReport {
  price_by_cut : string -> option num;
  ppc_by_color : string -> option num;
  category_counts : string -> nat
}.

Definition analyse (df : xtable) : report :=
  mkReport (groupby_mean (fun r => cut r) (fun r => price r) df)
           (groupby_mean (fun r => color r) price_per_carat df)
           (value_counts df).

End Analyse.

(* ================================================================== *)
(** ** 6. VISUALISE: the data behind the charts *)

Module Visualise.

(** The dict [colors_map], from value category to colour. *)
Definition colors_map : list (string * string) :=
  [("Budget", "#4CAF50"); ("Mid-Range", "#FF9800"); ("Premium", "#F44336")].

(** [d[k]] on a dict: the value, or [None] where Python raises
    [KeyError]. *)
Fixpoint getitem (d : list (string * string)) (k : string) : option string :=
  match d with
  | [] => None
  | (k', v) :: rest => if String.eqb k' k then Some v else getitem rest k
  end.

(** [[colors_map[c] for c in keys]], the colours of the scatter groups and
    of the pie wedges; [None] when one lookup fails. *)
Fixpoint colors_for (keys : list string) : option (list string) :=
  match keys with
  | [] => Some []
  | k :: rest =>
      match getitem colors_map k, colors_for rest with
      | Some v, Some vs => Some (v :: vs)
      | _, _ => None
      end
  end.

Definition cut_order : list string :=
  ["Fair"; "Good"; "Very Good"; "Premium"; "Ideal"].

(** [c in df["cut"].unique()] *)
Definition cut_in_unique (df : xtable) (c : string) : bool :=
  existsb (fun r : xrow => Analyse.key_is c (cut r)) df.

(** [df.groupby("cut")["price"].mean()], read at the group [k]; [None]
    when no row has that cut. *)
Definition mean_price_of_cut (df : xtable) (k : string) : option num :=
  match filter (fun r : xrow => Analyse.key_is k (cut r)) df with
  | [] => None
  | grp => Some (Analyse.mean (map (fun r : xrow => price r) grp))
  end.

(** [Series.reindex(keys)]: the value at each label, NaN at a label the
    series does not have. *)
Definition reindex (s : string -> option num) (keys : list string)
    : list (string * num) :=
  map (fun k => (k, match s k with Some v => v | None => NaN end)) keys.

(** The bars of chart 2: label and height, in the fixed ranking. *)
Definition cut_avg (df : xtable) : list (string * num) :=
  reindex (mean_price_of_cut df) (filter (cut_in_unique df) cut_order).

End Visualise.

(* ================================================================== *)
(** ** 7. EXPORT *)

(** A field of the written file: empty, a number or text.  Quoting and the
    decimal rendering of numbers are not modelled. *)
Inductive field : Type :=
| Empty
| Number (x : num)
| Text (s : string).

(** [to_csv] writes a missing value as the empty string ([na_rep]). *)
Definition num_field (x : num) : field :=
  if Num.isna x then Empty else Number x.

Definition str_field (s : option string) : field :=
  match s with
  | Some t => Text t
  | None => Empty
  end.

Definition value_field (v : value) : field :=
  match v with
  | VNum x => num_field x
  | VStr s => str_field s
  end.

Record csv_record : Type := mkRecord {
  f_carat : field;
  f_cut : field;
  f_color : field;
  f_price : field;
  f_others : list field;
  f_price_per_carat : field;
  f_value_category : field;
  f_price_band : field
}.

Definition write_row (r : xrow) : csv_record :=
  mkRecord (num_field (carat r)) (str_field (cut r)) (str_field (color r))
           (num_field (price r)) (map value_field (others r))
           (num_field (price_per_carat r)) (Text (value_category r))
           (str_field (price_band r)).

(** [df.to_csv(path, index=False)]: one record per row, in row order, below
    the header. *)
Definition to_csv (df : xtable) : list csv_record := map write_row df.

(* ================================================================== *)
(** ** The script from CLEAN to EXPORT *)

(** The value of [df] at the end of each section, the report of ANALYSE and
    the records written by EXPORT.  ANALYSE and VISUALISE only read [df]. *)
Record run : Type := mkRun {
  df_clean : table;
  df_transform : xtable;
  printed : Analyse.report;
  df_export : xtable;
  written : list csv_record
}.

(** CLEAN, TRANSFORM, ANALYSE and EXPORT in a run whose VISUALISE section
    draws its charts: the frames the script builds, what it prints and the
    records [to_csv] is given.  The VISUALISE section itself, which can end
    the run before EXPORT, is in [script] below. *)
Definition pipeline (raw : table) : outcome run :=
  let df := clean raw in
  match transformer df with
  | Raises e => Raises e
  | Returns dx =>
      let rep := Analyse.analyse dx in
      Returns (mkRun df dx rep dx (to_csv dx))
  end.

(** The script with its VISUALISE section (lines 120-170) between ANALYSE
    and EXPORT.  The charts are drawn by matplotlib, which is no part of the
    script: [visualise] stands for what drawing and saving them does on the
    frame, and an exception it raises ends the run before [to_csv]. *)
Definition script (visualise : xtable -> outcome unit) (raw : table)
    : outcome run :=
  let df := clean raw in
  match transformer df with
  | Raises e => Raises e
  | Returns dx =>
      let rep := Analyse.analyse dx in
      match visualise dx with
      | Raises e => Raises e
      | Returns _ => Returns (mkRun df dx rep dx (to_csv dx))
      end
  end.

(** One behaviour of VISUALISE, for the examples: a [ValueError] on an
    empty frame (the pie chart) and on a price that is not finite (the
    histogram), the charts drawn otherwise. *)
Definition sample_visualise (dx : xtable) : outcome unit :=
  match dx with
  | [] => Raises ValueError
  | _ =>
      if forallb (fun x : xrow => Num.is_finite (price x)) dx
      then Returns tt
      else Raises ValueError
  end.

(* ================================================================== *)
(** ** Predicates on rows *)

(** What the three filters of CLEAN let through. *)
Definition valid (r : row) : Prop :=
  has_null r = false /\
  Num.ltb zero (price r) = true /\
  Num.ltb zero (carat r) = true.

(** [carat > 0 and price > 0]. *)
Definition positive (r : row) : Prop :=
  Num.ltb zero (carat r) = true /\ Num.ltb zero (price r) = true.

(** Every cut of the frame is ASCII text. *)
Definition ascii_cuts (df : table) : Prop :=
  Forall (fun r => match cut r with
                   | Some s => Str.is_ascii s = true
                   | None => True
                   end) df.

(** [lo < x <= hi] on cells. *)
Definition within (lo hi : Z) (x : num) : Prop :=
  Num.ltb (Num.of_Z lo) x = true /\ Num.leb x (Num.of_Z hi) = true.

(** [kept] lists some of the elements of [all], in the same order. *)
Inductive subseq {A : Type} : list A -> list A -> Prop :=
| subseq_nil : subseq [] []
| subseq_skip x kept all : subseq kept all -> subseq kept (x :: all)
| subseq_keep x kept all : subseq kept all -> subseq (x :: kept) (x :: all).

(** Two strings that differ at most in the case of their letters. *)
Inductive case_alike : string -> string -> Prop :=
| case_nil : case_alike EmptyString EmptyString
| case_cons c c' s s' :
    Str.lower c = Str.lower c' -> case_alike s s' ->
    case_alike (String c s) (String c' s').

(** A string of whitespace only. *)
Fixpoint all_space (s : string) : bool :=
  match s with
  | EmptyString => true
  | String c s' => Str.isspace c && all_space s'
  end.

(* ================================================================== *)
(** ** Sample tables *)

(** The three rows of the example in the specification. *)
Definition example_rows : table :=
  [ mkRow (Num.of_Z 1) (Some " ideal ") (Some "E") (Num.of_Z 3000) [];
    mkRow (Num.of_Z 1) (Some "Ideal") (Some "E") (Num.of_Z 3000) [];
    mkRow (Num.of_Z 0) (Some "Good") (Some "F") (Num.of_Z 500) [] ].

(** Two rows that differ only in the spelling of cut. *)
Definition respelled_rows : table :=
  [ mkRow (Num.of_Z 1) (Some " ideal ") (Some "E") (Num.of_Z 3000) [];
    mkRow (Num.of_Z 1) (Some "Ideal") (Some "E") (Num.of_Z 3000) [] ].

Definition ideal_row : row :=
  mkRow (Num.of_Z 1) (Some "Ideal") (Some "E") (Num.of_Z 3000) [].

(** [ideal_row] with its three derived columns. *)
Definition ideal_xrow : xrow :=
  mkXRow ideal_row (Num.of_Z 3000) "Mid-Range" (Some "$2k+").

(** Rows with cuts already in title case, one of them repeated. *)
Definition example_rows_distinct : table :=
  [ ideal_row;
    mkRow (Num.of_Q (23 # 100)) (Some "Very Good") (Some "F")
          (Num.of_Z 326) [VStr (Some "SI2")];
    ideal_row ].

(** A row with carat zero. *)
Definition zero_carat_row : row :=
  mkRow (Num.of_Z 0) (Some "Good") (Some "F") (Num.of_Z 500) [].

(** A row priced above the last bin edge. *)
Definition costly_row : row :=
  mkRow (Num.of_Q (201 # 100)) (Some "premium") (Some "G")
        (Num.of_Z 18823) [].

(* ================================================================== *)
(** * Properties *)

(** ** Characters and strings *)

Module StrFacts.
Import Str.

Ltac by_cases_on c :=
  destruct c as [[] [] [] [] [] [] [] []]; vm_compute; reflexivity.

Lemma isspace_upper c : isspace (upper c) = isspace c.
Proof. by_cases_on c. Qed.

Lemma isspace_lower c : isspace (lower c) = isspace c.
Proof. by_cases_on c. Qed.

Lemma is_cased_upper c : is_cased (upper c) = is_cased c.
Proof. by_cases_on c. Qed.

Lemma is_cased_lower c : is_cased (lower c) = is_cased c.
Proof. by_cases_on c. Qed.

Lemma upper_upper c : upper (upper c) = upper c.
Proof. by_cases_on c. Qed.

Lemma lower_lower c : lower (lower c) = lower c.
Proof. by_cases_on c. Qed.

Lemma lstrip_lstripped s : lstripped (lstrip s).
Proof.
  induction s as [|c s IH]; simpl; [exact I|].
  destruct (isspace c) eqn:E; [exact IH|exact E].
Qed.

Lemma lstripped_fix s : lstripped s -> lstrip s = s.
Proof. destruct s as [|c s]; simpl; [reflexivity|]. now intros ->. Qed.

Lemma rstrip_rstripped s : rstripped (rstrip s).
Proof.
  induction s as [|c s IH]; simpl; [exact I|].
  destruct (rstrip s) as [|d r] eqn:E.
  - destruct (isspace c) eqn:Ec; simpl; [exact I|exact Ec].
  - exact IH.
Qed.

Lemma rstripped_fix s : rstripped s -> rstrip s = s.
Proof.
  induction s as [|c s IH]; [reflexivity|].
  destruct s as [|d r].
  - simpl. now intros ->.
  - intros H. change (rstripped (String d r)) in H.
    cbn [rstrip]. cbn [rstrip] in IH. rewrite (IH H). reflexivity.
Qed.

Lemma rstrip_keeps_lstripped s : lstripped s -> lstripped (rstrip s).
Proof.
  destruct s as [|c s]; simpl; [trivial|]. intros Hc.
  destruct (rstrip s); [rewrite Hc|]; exact Hc.
Qed.

Lemma alike_lstripped s s' : space_alike s s' -> lstripped s -> lstripped s'.
Proof. destruct 1 as [|c c' s s' Hc _]; simpl; congruence. Qed.

Lemma alike_rstripped s s' : space_alike s s' -> rstripped s -> rstripped s'.
Proof.
  induction 1 as [|c c' s s' Hc Hs IH]; [trivial|].
  destruct Hs as [|d d' r r' Hd Hr]; simpl in *; [congruence|exact IH].
Qed.

Lemma title_from_alike b s : space_alike s (title_from b s).
Proof.
  revert b; induction s as [|c s IH]; intros b; simpl; constructor; auto.
  destruct b; [apply isspace_lower|apply isspace_upper].
Qed.

Lemma title_from_idem b s : title_from b (title_from b s) = title_from b s.
Proof.
  revert b; induction s as [|c s IH]; intros b; simpl; [reflexivity|].
  destruct b.
  - now rewrite lower_lower, is_cased_lower, IH.
  - now rewrite upper_upper, is_cased_upper, IH.
Qed.

Lemma strip_title_strip s : strip (title (strip s)) = title (strip s).
Proof.
  assert (Hl : lstripped (strip s))
    by (apply rstrip_keeps_lstripped, lstrip_lstripped).
  assert (Hr : rstripped (strip s)) by apply rstrip_rstripped.
  pose proof (title_from_alike false (strip s)) as Ha.
  unfold title; unfold strip at 1.
  rewrite (lstripped_fix _ (alike_lstripped _ _ Ha Hl)).
  apply rstripped_fix, (alike_rstripped _ _ Ha Hr).
Qed.

End StrFacts.

Example standardise_ideal : standardise (Some " ideal ") = Some "Ideal".
Proof. reflexivity. Qed.

Example standardise_very_good :
  standardise (Some "very  gOOD ") = Some "Very  Good".
Proof. reflexivity. Qed.

Lemma standardise_idem c : standardise (standardise c) = standardise c.
Proof.
  destruct c as [s|]; simpl; [|reflexivity].
  rewrite StrFacts.strip_title_strip.
  unfold Str.title. now rewrite StrFacts.title_from_idem.
Qed.

Lemma standardise_cut_idem r :
  standardise_cut (standardise_cut r) = standardise_cut r.
Proof. unfold standardise_cut; simpl. now rewrite standardise_idem. Qed.

(** ** Deduplication *)

Section DropDuplicates.

Lemma row_eqb_eq a b : row_eqb a b = true <-> a = b.
Proof. unfold row_eqb; destruct (row_eq_dec a b); split; congruence. Qed.

Lemma seen_In r seen : existsb (row_eqb r) seen = true <-> In r seen.
Proof.
  rewrite existsb_exists; split.
  - intros (x & Hx & E). apply row_eqb_eq in E. now subst.
  - intros H. exists r. split; [exact H|now apply row_eqb_eq].
Qed.

Lemma seen_not_In r seen : existsb (row_eqb r) seen = false <-> ~ In r seen.
Proof.
  rewrite <- seen_In. destruct (existsb (row_eqb r) seen); split; congruence.
Qed.

Lemma drop_from_In seen df r :
  In r (drop_duplicates_from seen df) -> In r df /\ ~ In r seen.
Proof.
  revert seen; induction df as [|x df IH]; intros seen; simpl; [tauto|].
  destruct (existsb (row_eqb x) seen) eqn:E.
  - intros H. apply IH in H. tauto.
  - apply seen_not_In in E. intros [<-|H]; [tauto|].
    apply IH in H. simpl in H. tauto.
Qed.

Lemma drop_from_NoDup seen df : NoDup (drop_duplicates_from seen df).
Proof.
  revert seen; induction df as [|x df IH]; intros seen; simpl.
  - constructor.
  - destruct (existsb (row_eqb x) seen); [apply IH|].
    constructor; [|apply IH].
    intros H. apply drop_from_In in H. simpl in H. tauto.
Qed.

Lemma drop_from_length seen df :
  (List.length (drop_duplicates_from seen df) <= List.length df)%nat.
Proof.
  revert seen; induction df as [|x df IH]; intros seen; simpl; [lia|].
  destruct (existsb (row_eqb x) seen); simpl.
  - specialize (IH seen). lia.
  - specialize (IH (x :: seen)). lia.
Qed.

Lemma drop_from_keeps seen df r :
  In r df -> In r seen \/ In r (drop_duplicates_from seen df).
Proof.
  revert seen; induction df as [|x df IH]; intros seen; simpl; [tauto|].
  destruct (existsb (row_eqb x) seen) eqn:E.
  - apply seen_In in E. intros [<-|H]; [tauto|]. now apply IH.
  - intros [<-|H]; [simpl; tauto|].
    destruct (IH (x :: seen) H) as [[<-|Hs]|Hd]; simpl; tauto.
Qed.

Lemma drop_from_fix seen df :
  NoDup df -> (forall r, In r df -> ~ In r seen) ->
  drop_duplicates_from seen df = df.
Proof.
  revert seen; induction df as [|x df IH]; intros seen Hn Hs; [reflexivity|].
  simpl. inversion Hn as [|? ? Hx Hn']; subst.
  assert (E : existsb (row_eqb x) seen = false)
    by (apply seen_not_In, Hs; now left).
  rewrite E. f_equal. apply IH; [exact Hn'|].
  intros r Hr [<-|Hin]; [contradiction|].
  apply (Hs r); [now right|exact Hin].
Qed.

Lemma drop_duplicates_In df r : In r (drop_duplicates df) <-> In r df.
Proof.
  split.
  - intros H. now apply drop_from_In in H.
  - intros H. destruct (drop_from_keeps [] df r H) as [[]|Hd]. exact Hd.
Qed.

Lemma drop_duplicates_NoDup df : NoDup (drop_duplicates df).
Proof. apply drop_from_NoDup. Qed.

Lemma drop_duplicates_length df :
  (List.length (drop_duplicates df) <= List.length df)%nat.
Proof. apply drop_from_length. Qed.

Lemma drop_duplicates_fix df : NoDup df -> drop_duplicates df = df.
Proof. intros H. apply drop_from_fix; [exact H|]. intros r _ []. Qed.

End DropDuplicates.

(** ** The cleaning steps *)

Lemma filter_fix {A} (f : A -> bool) (l : list A) :
  (forall x, In x l -> f x = true) -> filter f l = l.
Proof.
  intros H. apply forallb_filter_id, forallb_forall, H.
Qed.

Lemma filter_shorter {A} (f : A -> bool) (l : list A) :
  (List.length (filter f l) <= List.length l)%nat.
Proof. induction l as [|x l IH]; simpl; [lia|]. destruct (f x); simpl; lia. Qed.

Lemma survivors_In df r :
  In r (survivors df) <-> In r df /\ valid r.
Proof.
  unfold survivors, carat_positive, price_positive, dropna, valid.
  rewrite !filter_In, drop_duplicates_In, negb_true_iff. tauto.
Qed.

Lemma survivors_NoDup df : NoDup (survivors df).
Proof.
  unfold survivors, carat_positive, price_positive, dropna.
  do 3 apply NoDup_filter. apply drop_duplicates_NoDup.
Qed.

Lemma survivors_length df :
  (List.length (survivors df) <= List.length df)%nat.
Proof.
  unfold survivors, carat_positive, price_positive, dropna.
  eapply Nat.le_trans; [apply filter_shorter|].
  eapply Nat.le_trans; [apply filter_shorter|].
  eapply Nat.le_trans; [apply filter_shorter|].
  apply drop_duplicates_length.
Qed.

Lemma clean_survivors df : clean df = map standardise_cut (survivors df).
Proof. reflexivity. Qed.

Lemma has_null_standardise_cut r :
  has_null (standardise_cut r) = has_null r.
Proof. unfold has_null; simpl. now destruct (cut r). Qed.

Lemma valid_standardise_cut r : valid r -> valid (standardise_cut r).
Proof. unfold valid. now rewrite has_null_standardise_cut. Qed.

Lemma clean_In df r :
  In r (clean df) -> valid r /\ standardise_cut r = r.
Proof.
  rewrite clean_survivors, in_map_iff. intros (r0 & <- & H).
  apply survivors_In in H. split.
  - apply valid_standardise_cut, H.
  - apply standardise_cut_idem.
Qed.

Lemma clean_length df : (List.length (clean df) <= List.length df)%nat.
Proof. rewrite clean_survivors, length_map. apply survivors_length. Qed.

Lemma map_fix {A} (f : A -> A) (l : list A) :
  (forall x, In x l -> f x = x) -> map f l = l.
Proof.
  intros H. rewrite <- (map_id l) at 2. apply map_ext_in, H.
Qed.

(** A second pass of the cleaner only deduplicates. *)
Lemma survivors_of_clean df :
  survivors (clean df) = drop_duplicates (clean df).
Proof.
  assert (Hc : forall r, In r (drop_duplicates (clean df)) -> valid r).
  { intros r Hr. rewrite drop_duplicates_In in Hr. now apply clean_In in Hr. }
  unfold survivors, carat_positive, price_positive, dropna.
  rewrite (filter_fix _ (drop_duplicates (clean df)))
    by (intros r Hr; apply negb_true_iff, (Hc r Hr)).
  rewrite (filter_fix _ (drop_duplicates (clean df)))
    by (intros r Hr; apply (Hc r Hr)).
  apply filter_fix. intros r Hr; apply (Hc r Hr).
Qed.

Lemma clean_clean df : clean (clean df) = drop_duplicates (clean df).
Proof.
  rewrite (clean_survivors (clean df)), survivors_of_clean.
  apply map_fix. intros r Hr.
  rewrite drop_duplicates_In in Hr. now apply clean_In in Hr.
Qed.

(** ** Order on numeric cells *)

Module NumFacts.
Import Num.

Lemma Qc_ltb_true p q : Qc_ltb p q = true -> (this p < this q)%Q.
Proof.
  unfold Qc_ltb, Qccompare. rewrite Qlt_alt.
  now destruct (this p ?= this q)%Q.
Qed.

Lemma Qc_ltb_false p q : Qc_ltb p q = false -> (this q <= this p)%Q.
Proof.
  unfold Qc_ltb, Qccompare. intros H. apply Qnot_lt_le. rewrite Qlt_alt.
  now destruct (this p ?= this q)%Q.
Qed.

Lemma Qc_leb_true p q : Qc_leb p q = true -> (this p <= this q)%Q.
Proof.
  unfold Qc_leb, Qccompare. rewrite Qle_alt.
  now destruct (this p ?= this q)%Q.
Qed.

Lemma Qc_leb_false p q : Qc_leb p q = false -> (this q < this p)%Q.
Proof.
  unfold Qc_leb, Qccompare. intros H. apply Qnot_le_lt. rewrite Qle_alt.
  destruct (this p ?= this q)%Q; congruence.
Qed.

Lemma this_of_Z z : (this (Q2Qc (inject_Z z)) == inject_Z z)%Q.
Proof. apply Qred_correct. Qed.

End NumFacts.

(** Turn the boolean comparisons of the context into inequalities of
    rationals and close the goal by linear arithmetic. *)
Ltac order_facts :=
  repeat match goal with
  | H : Num.Qc_ltb _ _ = true |- _ => apply NumFacts.Qc_ltb_true in H
  | H : Num.Qc_ltb _ _ = false |- _ => apply NumFacts.Qc_ltb_false in H
  | H : Num.Qc_leb _ _ = true |- _ => apply NumFacts.Qc_leb_true in H
  | H : Num.Qc_leb _ _ = false |- _ => apply NumFacts.Qc_leb_false in H
  end;
  repeat match goal with
  | H : context [this (Q2Qc (inject_Z ?z))] |- _ =>
      rewrite (NumFacts.this_of_Z z) in H
  end.

Ltac order_absurd := exfalso; order_facts; unfold inject_Z in *; lra.

Module RoundFacts.
Import Num.

(** Dividing by a positive finite value is the plain quotient. *)
Lemma div_positive p c :
  ltb (of_Z 0) (Fin c) = true -> div (Fin p) (Fin c) = Fin (p / c)%Qc.
Proof.
  unfold of_Z; cbn [ltb div]. intros H.
  destruct (Qc_eq_bool c 0) eqn:E; [|reflexivity].
  apply Qc_eq_bool_correct in E. subst c.
  apply NumFacts.Qc_ltb_true in H. discriminate H.
Qed.

End RoundFacts.

(** ** Categories and price bands *)

Lemma categorise_budget ppc :
  Num.ltb ppc (Num.of_Z 2000) = true -> categorise ppc = "Budget".
Proof. unfold categorise. now intros ->. Qed.

Lemma categorise_mid_range ppc :
  Num.leb (Num.of_Z 2000) ppc = true ->
  Num.ltb ppc (Num.of_Z 5000) = true ->
  categorise ppc = "Mid-Range".
Proof.
  unfold categorise. intros Hlo Hhi.
  destruct ppc as [| |q|]; try discriminate.
  rewrite Hhi.
  unfold Num.of_Z in *; cbn [Num.ltb Num.leb] in *.
  destruct (Num.Qc_ltb q (Q2Qc (inject_Z 2000))) eqn:E; [|reflexivity].
  order_absurd.
Qed.

Lemma categorise_premium ppc :
  Num.leb (Num.of_Z 5000) ppc = true -> categorise ppc = "Premium".
Proof.
  unfold categorise. intros Hlo.
  destruct ppc as [| |q|]; try discriminate; [|reflexivity].
  unfold Num.of_Z in *; cbn [Num.ltb Num.leb] in *.
  destruct (Num.Qc_ltb q (Q2Qc (inject_Z 2000))) eqn:E2; [order_absurd|].
  destruct (Num.Qc_ltb q (Q2Qc (inject_Z 5000))) eqn:E5; [order_absurd|].
  reflexivity.
Qed.

Ltac band_cases :=
  unfold pd_cut, bins, within, Num.of_Z in *;
  cbn [searchsorted_left Num.ltb Num.leb Num.isna orb] in *;
  repeat match goal with
  | |- context [Num.Qc_ltb ?a ?b] => destruct (Num.Qc_ltb a b) eqn:?
  end;
  first [reflexivity | order_absurd].

Lemma pd_cut_within x :
  (within 0 500 x -> pd_cut x = Some "<$500") /\
  (within 500 1000 x -> pd_cut x = Some "$500-$1k") /\
  (within 1000 2000 x -> pd_cut x = Some "$1k-$2k") /\
  (within 2000 5000 x -> pd_cut x = Some "$2k+").
Proof.
  destruct x as [| |q|];
    repeat split; intros [Hlo Hhi]; try discriminate; band_cases.
Qed.

Lemma pd_cut_zero : pd_cut (Num.of_Z 0) = None.
Proof. reflexivity. Qed.

Lemma pd_cut_above x :
  Num.ltb (Num.of_Z 5000) x = true -> pd_cut x = None.
Proof.
  destruct x as [| |q|]; intros H; try discriminate; [|reflexivity].
  band_cases.
Qed.

(** ** The derived columns, row by row *)

Lemma transform_In df x :
  In x (transform df) <-> exists r, In r df /\ x = add_features r.
Proof.
  unfold transform. rewrite in_map_iff.
  split; intros (r & H1 & H2); exists r; [now split|now split].
Qed.

Lemma fin_eq p q : (this p == this q)%Q -> Fin p = Fin q.
Proof. intros H. f_equal. now apply Qc_is_canon. Qed.




Lemma add_features_ideal_row : add_features ideal_row = ideal_xrow.
Proof.
  unfold add_features.
  assert (E : Num.round2 (Num.div (price ideal_row) (carat ideal_row))
              = Num.of_Z 3000)
    by (apply fin_eq; vm_compute; reflexivity).
  rewrite E. reflexivity.
Qed.




(* ================================================================== *)
(** * The claims of the specification *)

(** C1, as the specification words it: cleaning the three example rows
    leaves one row.  It leaves two: when [drop_duplicates] runs the cuts
    still read [" ideal "] and ["Ideal"]. *)
Lemma example_rows_not_one_row :
  ~ (exists r : row,
       clean example_rows = [r] /\ cut r = Some "Ideal" /\
       exists x : xrow,
         transform (clean example_rows) = [x] /\
         price_per_carat x = Num.of_Z 3000 /\
         value_category x = "Mid-Range" /\
         price_band x = Some "$2k+").
Proof.
  intros (r & H & _). apply (f_equal (@List.length row)) in H.
  vm_compute in H. discriminate H.
Qed.

(** C1, amended: cleaning the three example rows drops the zero-carat row
    and keeps the two others, both with cut ["Ideal"]; after the
    transformer each has price_per_carat 3000.0, value_category
    ["Mid-Range"] and price_band ["$2k+"]. *)
Theorem example_rows_cleaned_and_transformed :
  clean example_rows = [ideal_row; ideal_row] /\
  transform (clean example_rows) = [ideal_xrow; ideal_xrow] /\
  cut ideal_xrow = Some "Ideal" /\
  price_per_carat ideal_xrow = Num.of_Z 3000 /\
  value_category ideal_xrow = "Mid-Range" /\
  price_band ideal_xrow = Some "$2k+".
Proof.
  assert (E : clean example_rows = [ideal_row; ideal_row])
    by (vm_compute; reflexivity).
  split; [exact E|]. split; [|repeat split].
  rewrite E. unfold transform. cbn [map].
  now rewrite add_features_ideal_row.
Qed.

(** C2, as the specification words it: the cleaner is idempotent.  On the
    two rows that differ in the spelling of cut the second pass drops a
    row. *)
Lemma clean_not_idempotent :
  clean (clean respelled_rows) <> clean respelled_rows.
Proof.
  intros H. apply (f_equal (@List.length row)) in H.
  vm_compute in H. discriminate H.
Qed.

(** C2, amended: for a table whose cuts are ASCII text, applying the
    cleaner to its own output deduplicates that output and changes nothing
    else; the table is the same whenever the cleaned output holds no two
    equal rows, and from the second pass on it no longer changes. *)
Theorem clean_twice (df : table) :
  ascii_cuts df ->
  clean (clean df) = drop_duplicates (clean df) /\
  (NoDup (clean df) -> clean (clean df) = clean df) /\
  clean (clean (clean df)) = clean (clean df).
Proof.
  intros _. split; [apply clean_clean|]. split.
  - intros H. rewrite clean_clean. now apply drop_duplicates_fix.
  - rewrite (clean_clean (clean df)). apply drop_duplicates_fix.
    rewrite clean_clean. apply drop_duplicates_NoDup.
Qed.

Lemma clean_twice_witness :
  ascii_cuts example_rows_distinct /\
  NoDup (clean example_rows_distinct) /\
  clean (clean example_rows_distinct) = clean example_rows_distinct.
Proof.
  assert (Ha : ascii_cuts example_rows_distinct)
    by (repeat constructor).
  assert (H : NoDup (clean example_rows_distinct)).
  { vm_compute. repeat constructor; simpl; intuition discriminate. }
  split; [exact Ha|]. split; [exact H|].
  exact (proj1 (proj2 (clean_twice example_rows_distinct Ha)) H).
Defined.

(** C3, as the specification words it: the cleaned output never holds two
    equal rows.  The two rows that differ in the spelling of cut come out
    equal. *)
Lemma clean_output_repeats_a_row :
  ~ ((List.length (clean respelled_rows) <= List.length respelled_rows)%nat /\
     NoDup (clean respelled_rows)).
Proof.
  intros [_ H].
  assert (E : clean respelled_rows = [ideal_row; ideal_row])
    by (vm_compute; reflexivity).
  rewrite E in H. inversion H as [|? ? Hn _]; subst.
  apply Hn. now left.
Qed.

(** C3, amended: the cleaned frame has at most as many rows as the input;
    the rows that are kept are pairwise different as they stand before the
    cut column is rewritten, so the output holds no two equal rows when the
    cuts of the input are already trimmed and in title case. *)
Theorem clean_row_count_and_duplicates (df : table) :
  (List.length (clean df) <= List.length df)%nat /\
  clean df = map standardise_cut (survivors df) /\
  NoDup (survivors df) /\
  (Forall (fun r => standardise (cut r) = cut r) df -> NoDup (clean df)).
Proof.
  split; [apply clean_length|]. split; [reflexivity|].
  split; [apply survivors_NoDup|].
  intros H. rewrite clean_survivors, map_fix; [apply survivors_NoDup|].
  intros r Hr. apply survivors_In in Hr. destruct Hr as [Hr _].
  rewrite Forall_forall in H. specialize (H r Hr).
  destruct r as [c k o p e]; unfold standardise_cut; simpl in *.
  now rewrite H.
Qed.

Lemma clean_row_count_and_duplicates_witness :
  NoDup (clean example_rows_distinct).
Proof.
  apply (clean_row_count_and_duplicates example_rows_distinct).
  repeat constructor.
Defined.

(** C4: value_category is [categorise] of price_per_carat: below 2000 it
    is ["Budget"], from 2000 up to but not including 5000 ["Mid-Range"],
    from 5000 on ["Premium"]; so 2000 and 4999.99 are ["Mid-Range"] and
    5000 is ["Premium"]. *)
Theorem value_category_boundaries (df : table) (x : xrow) :
  In x (transform df) ->
  value_category x = categorise (price_per_carat x) /\
  (Num.ltb (price_per_carat x) (Num.of_Z 2000) = true ->
   value_category x = "Budget") /\
  (Num.leb (Num.of_Z 2000) (price_per_carat x) = true ->
   Num.ltb (price_per_carat x) (Num.of_Z 5000) = true ->
   value_category x = "Mid-Range") /\
  (Num.leb (Num.of_Z 5000) (price_per_carat x) = true ->
   value_category x = "Premium") /\
  categorise (Num.of_Z 2000) = "Mid-Range" /\
  categorise (Num.of_Q (499999 # 100)) = "Mid-Range" /\
  categorise (Num.of_Z 5000) = "Premium".
Proof.
  intros Hx. apply transform_In in Hx. destruct Hx as (r & _ & ->).
  cbn [value_category price_per_carat add_features].
  split; [reflexivity|].
  split; [apply categorise_budget|].
  split; [apply categorise_mid_range|].
  split; [apply categorise_premium|].
  repeat split; vm_compute; reflexivity.
Qed.

Lemma value_category_boundaries_witness :
  value_category (add_features ideal_row) = "Mid-Range".
Proof.
  destruct (value_category_boundaries [ideal_row] (add_features ideal_row)
              (or_introl eq_refl)) as (_ & _ & H & _).
  apply H; vm_compute; reflexivity.
Defined.

(** C5: price_band is [pd.cut] of price: (0,500] is ["<$500"], (500,1000]
    ["$500-$1k"], (1000,2000] ["$1k-$2k"], (2000,5000] ["$2k+"]; a price of
    exactly 0 or above 5000 gets no label. *)
Theorem price_band_intervals (df : table) (x : xrow) :
  In x (transform df) ->
  price_band x = pd_cut (price x) /\
  (within 0 500 (price x) -> price_band x = Some "<$500") /\
  (within 500 1000 (price x) -> price_band x = Some "$500-$1k") /\
  (within 1000 2000 (price x) -> price_band x = Some "$1k-$2k") /\
  (within 2000 5000 (price x) -> price_band x = Some "$2k+") /\
  (price x = Num.of_Z 0 -> price_band x = None) /\
  (Num.ltb (Num.of_Z 5000) (price x) = true -> price_band x = None).
Proof.
  intros Hx. apply transform_In in Hx. destruct Hx as (r & _ & ->).
  cbn [price_band add_features base].
  split; [reflexivity|].
  destruct (pd_cut_within (price r)) as (H1 & H2 & H3 & H4).
  repeat split; try assumption.
  - intros ->. apply pd_cut_zero.
  - apply pd_cut_above.
Qed.

Lemma price_band_intervals_witness :
  price_band (add_features ideal_row) = Some "$2k+" /\
  price_band (add_features costly_row) = None.
Proof.
  split.
  - destruct (price_band_intervals [ideal_row] (add_features ideal_row)
                (or_introl eq_refl)) as (_ & _ & _ & _ & H & _).
    apply H. split; vm_compute; reflexivity.
  - destruct (price_band_intervals [costly_row] (add_features costly_row)
                (or_introl eq_refl)) as (_ & _ & _ & _ & _ & _ & H).
    apply H. vm_compute; reflexivity.
Defined.




(** C9: every row that survives cleaning has carat > 0 and price > 0, and
    so has every row of the frame after the cut column is rewritten, after
    the transformer, after the analysis and in the exported file. *)
Theorem surviving_rows_positive (raw : table) :
  (forall r, In r (survivors raw) -> positive r) /\
  (forall r, In r (clean raw) -> positive r) /\
  exists result : run,
    pipeline raw = Returns result /\
    df_clean result = clean raw /\
    (forall x : xrow, In x (df_transform result) -> positive x) /\
    (forall x : xrow, In x (df_export result) -> positive x) /\
    (forall rec, In rec (written result) ->
       exists c p, f_carat rec = Number c /\ f_price rec = Number p /\
                   Num.ltb zero c = true /\ Num.ltb zero p = true).
Proof.
  assert (Hclean : forall r, In r (clean raw) -> positive r).
  { intros r Hr. apply clean_In in Hr. unfold positive, valid in *. tauto. }
  assert (Hx : forall x : xrow, In x (transform (clean raw)) -> positive x).
  { intros x Hin. apply transform_In in Hin. destruct Hin as (r & Hr & ->).
    apply Hclean, Hr. }
  split; [|split; [exact Hclean|]].
  - intros r Hr. apply survivors_In in Hr. unfold positive, valid in *. tauto.
  - eexists. split; [reflexivity|]. cbn [df_clean df_transform df_export written].
    split; [reflexivity|]. split; [exact Hx|]. split; [exact Hx|].
    intros rec Hrec. unfold to_csv in Hrec. apply in_map_iff in Hrec.
    destruct Hrec as (x & <- & Hin). destruct (Hx x Hin) as [Hc Hp].
    exists (carat x), (price x). cbn [f_carat f_price write_row].
    unfold num_field.
    destruct (carat x); try discriminate Hc;
      destruct (price x); try discriminate Hp; repeat split; assumption.
Qed.

Lemma surviving_rows_positive_witness : positive ideal_row.
Proof.
  apply (surviving_rows_positive example_rows_distinct).
  vm_compute. left. reflexivity.
Defined.



(* ================================================================== *)
(** * Further properties of the script *)

(** ** Order of the rows *)

Lemma subseq_refl {A} (l : list A) : subseq l l.
Proof. induction l; constructor; assumption. Qed.


Lemma subseq_filter {A} (f : A -> bool) (l : list A) : subseq (filter f l) l.
Proof.
  induction l as [|x l IH]; simpl; [constructor|].
  destruct (f x); constructor; exact IH.
Qed.

Lemma subseq_drop_from seen df : subseq (drop_duplicates_from seen df) df.
Proof.
  revert seen; induction df as [|x df IH]; intros seen; simpl; [constructor|].
  destruct (existsb (row_eqb x) seen); constructor; apply IH.
Qed.

Lemma subseq_length {A} (l1 l2 : list A) :
  subseq l1 l2 -> (List.length l1 <= List.length l2)%nat.
Proof. induction 1; simpl; lia. Qed.


(** X1: [drop_duplicates] keeps every distinct row of the frame exactly
    once, rows in their input order, and a second call changes nothing. *)
Theorem drop_duplicates_keeps_each_row_once (df : table) :
  NoDup (drop_duplicates df) /\
  (forall r, In r (drop_duplicates df) <-> In r df) /\
  subseq (drop_duplicates df) df /\
  drop_duplicates (drop_duplicates df) = drop_duplicates df.
Proof.
  split; [apply drop_duplicates_NoDup|].
  split; [intros r; apply drop_duplicates_In|].
  split; [apply subseq_drop_from|].
  apply drop_duplicates_fix, drop_duplicates_NoDup.
Qed.



(** ** The cut column after cleaning *)

Lemma title_fix_of_standardise s :
  Str.title (Str.title (Str.strip s)) = Str.title (Str.strip s).
Proof. unfold Str.title. apply StrFacts.title_from_idem. Qed.

Lemma strip_fix_of_standardise s :
  Str.strip (Str.title (Str.strip s)) = Str.title (Str.strip s).
Proof. apply StrFacts.strip_title_strip. Qed.

(** X3: when the cuts of the input are ASCII text, no cell of the cleaned
    frame is missing and every cut is already trimmed and in title case:
    [strip] and [title] leave it as it is. *)
Theorem cleaned_cut_is_normal (raw : table) (r : row) :
  ascii_cuts raw ->
  In r (clean raw) ->
  has_null r = false /\
  exists s, cut r = Some s /\ Str.strip s = s /\ Str.title s = s.
Proof.
  intros _ Hr. pose proof (clean_In _ _ Hr) as [(Hnull & _) _].
  split; [exact Hnull|].
  rewrite clean_survivors, in_map_iff in Hr. destruct Hr as (r0 & <- & H0).
  apply survivors_In in H0. destruct H0 as [_ (Hn0 & _)].
  unfold has_null in Hn0. destruct (cut r0) as [s0|] eqn:E.
  - exists (Str.title (Str.strip s0)). cbn [cut standardise_cut]. rewrite E.
    split; [reflexivity|].
    split; [apply strip_fix_of_standardise|apply title_fix_of_standardise].
  - rewrite orb_true_r in Hn0. discriminate Hn0.
Qed.

Lemma cleaned_cut_is_normal_witness :
  has_null ideal_row = false /\
  exists s, cut ideal_row = Some s /\ Str.strip s = s /\ Str.title s = s.
Proof.
  apply (cleaned_cut_is_normal example_rows_distinct ideal_row).
  - repeat constructor.
  - vm_compute. left. reflexivity.
Defined.

(** ** Spellings that the normalization identifies *)

Module SpellingFacts.
Import Str.

Lemma upper_lower c : upper (lower c) = upper c.
Proof. StrFacts.by_cases_on c. Qed.

Lemma lower_same_space c c' : lower c = lower c' -> isspace c = isspace c'.
Proof.
  intros H. rewrite <- (StrFacts.isspace_lower c), H.
  apply StrFacts.isspace_lower.
Qed.

Lemma lower_same_cased c c' : lower c = lower c' -> is_cased c = is_cased c'.
Proof.
  intros H. rewrite <- (StrFacts.is_cased_lower c), H.
  apply StrFacts.is_cased_lower.
Qed.

Lemma lower_same_upper c c' : lower c = lower c' -> upper c = upper c'.
Proof. intros H. now rewrite <- (upper_lower c), H, upper_lower. Qed.

Lemma lstrip_case_alike s s' :
  case_alike s s' -> case_alike (lstrip s) (lstrip s').
Proof.
  induction 1 as [|c c' s s' Hc Hs IH]; simpl; [constructor|].
  rewrite <- (lower_same_space _ _ Hc).
  destruct (isspace c); [exact IH|now constructor].
Qed.

Lemma rstrip_case_alike s s' :
  case_alike s s' -> case_alike (rstrip s) (rstrip s').
Proof.
  induction 1 as [|c c' s s' Hc Hs IH]; simpl; [constructor|].
  rewrite <- (lower_same_space _ _ Hc).
  inversion IH as [|d d' t t' Hd Ht E1 E2]; subst.
  - destruct (isspace c); repeat constructor; assumption.
  - constructor; [exact Hc|]. now constructor.
Qed.

Lemma title_from_case_alike b s s' :
  case_alike s s' -> title_from b s = title_from b s'.
Proof.
  intros H. revert b. induction H as [|c c' s s' Hc Hs IH]; intros b; simpl.
  - reflexivity.
  - rewrite (lower_same_cased _ _ Hc), (IH (is_cased c')).
    destruct b; [now rewrite Hc|now rewrite (lower_same_upper _ _ Hc)].
Qed.

Lemma lstrip_pad pad s : all_space pad = true -> lstrip (pad ++ s) = lstrip s.
Proof.
  induction pad as [|c pad IH]; simpl; [reflexivity|].
  intros H. apply andb_true_iff in H. destruct H as [-> H]. now apply IH.
Qed.

Lemma rstrip_all_space pad : all_space pad = true -> rstrip pad = EmptyString.
Proof.
  induction pad as [|c pad IH]; simpl; [reflexivity|].
  intros H. apply andb_true_iff in H. destruct H as [-> H].
  now rewrite (IH H).
Qed.

Lemma rstrip_pad s pad : all_space pad = true -> rstrip (s ++ pad) = rstrip s.
Proof.
  intros H. induction s as [|c s IH]; simpl.
  - now apply rstrip_all_space.
  - now rewrite IH.
Qed.

Lemma lstripped_fix_space pad :
  all_space pad = true -> rstrip (lstrip pad) = EmptyString.
Proof.
  induction pad as [|c pad IH]; simpl; [reflexivity|].
  intros H. apply andb_true_iff in H. destruct H as [-> H]. now apply IH.
Qed.

Lemma strip_right_pad s pad :
  all_space pad = true -> strip (s ++ pad) = strip s.
Proof.
  intros H. unfold strip. induction s as [|c s IH]; simpl.
  - rewrite (lstripped_fix_space pad H). reflexivity.
  - destruct (isspace c); [exact IH|].
    change (String c (s ++ pad)) with (String c s ++ pad)%string.
    now apply rstrip_pad.
Qed.

End SpellingFacts.

(** X4: the normalization of cut ignores the case of the letters: two
    spellings that differ only in upper and lower case give the same
    cut. *)
Theorem standardise_ignores_case (s s' : string) :
  case_alike s s' -> standardise (Some s) = standardise (Some s').
Proof.
  intros H. simpl. f_equal. unfold Str.title, Str.strip.
  apply SpellingFacts.title_from_case_alike,
        SpellingFacts.rstrip_case_alike,
        SpellingFacts.lstrip_case_alike, H.
Qed.

Lemma standardise_ignores_case_witness :
  standardise (Some "vERY good") = standardise (Some "Very Good").
Proof.
  apply standardise_ignores_case.
  repeat (constructor; [reflexivity|]). constructor.
Defined.

(** X5: the normalization of cut ignores whitespace around the value:
    padding a spelling with whitespace on either side gives the same
    cut. *)
Theorem standardise_ignores_padding (left right s : string) :
  all_space left = true -> all_space right = true ->
  standardise (Some (left ++ s ++ right)%string) = standardise (Some s).
Proof.
  intros Hl Hr. simpl. f_equal. f_equal. unfold Str.strip at 1.
  rewrite (SpellingFacts.lstrip_pad left _ Hl).
  apply (SpellingFacts.strip_right_pad s right Hr).
Qed.

Lemma standardise_ignores_padding_witness :
  standardise (Some "  Ideal ") = standardise (Some "Ideal").
Proof.
  apply (standardise_ignores_padding "  " " " "Ideal"); reflexivity.
Defined.

(** ** Categories, counts and colours *)

Lemma categorise_cases ppc :
  categorise ppc = "Budget" \/ categorise ppc = "Mid-Range" \/
  categorise ppc = "Premium".
Proof.
  unfold categorise.
  destruct (Num.ltb ppc (Num.of_Z 2000)); [now left|].
  destruct (Num.ltb ppc (Num.of_Z 5000)); [right; now left|right; now right].
Qed.

Lemma value_category_cases df (x : xrow) :
  In x (transform df) ->
  value_category x = "Budget" \/ value_category x = "Mid-Range" \/
  value_category x = "Premium".
Proof.
  intros H. apply transform_In in H. destruct H as (r & _ & ->).
  apply categorise_cases.
Qed.

(** X6: every value category in a transformed frame is a key of
    [colors_map], so the colour lookups of the scatter plot and of the pie
    chart never fail, whatever categories are present and in whatever
    order. *)
Theorem chart_colours_always_found (df : table) (keys : list string) :
  incl keys (map value_category (transform df)) ->
  exists colours,
    Visualise.colors_for keys = Some colours /\
    List.length colours = List.length keys.
Proof.
  induction keys as [|k keys IH]; intros Hk.
  - exists []. split; reflexivity.
  - destruct IH as (cs & Hcs & Hlen).
    { intros y Hy. apply Hk. now right. }
    assert (Hin : In k (map value_category (transform df)))
      by (apply Hk; now left).
    apply in_map_iff in Hin. destruct Hin as (x & <- & Hx).
    cbn [Visualise.colors_for]. rewrite Hcs.
    destruct (value_category_cases df x Hx) as [-> | [-> | ->]];
      eexists; (split; [reflexivity|simpl; now rewrite Hlen]).
Qed.

Lemma chart_colours_always_found_witness :
  exists colours,
    Visualise.colors_for ["Mid-Range"] = Some colours /\
    List.length colours = 1%nat.
Proof.
  apply (chart_colours_always_found [ideal_row] ["Mid-Range"]).
  intros k [<-|[]]. vm_compute. left. reflexivity.
Defined.

Lemma value_counts_cons (x : xrow) df c :
  Analyse.value_counts (x :: df) c =
  ((if string_dec (value_category x) c then 1 else 0)
   + Analyse.value_counts df c)%nat.
Proof.
  unfold Analyse.value_counts. simpl.
  destruct (string_dec (value_category x) c); reflexivity.
Qed.

(** X7: the three counts of [value_counts] add up to the number of rows
    of the frame, and no other label is counted. *)
Theorem value_counts_partition (df : table) :
  (Analyse.value_counts (transform df) "Budget"
   + Analyse.value_counts (transform df) "Mid-Range"
   + Analyse.value_counts (transform df) "Premium"
   = List.length df)%nat /\
  (forall c, c <> "Budget" -> c <> "Mid-Range" -> c <> "Premium" ->
             Analyse.value_counts (transform df) c = 0%nat).
Proof.
  induction df as [|r df [IHsum IHnone]].
  - split; [reflexivity|]. intros; reflexivity.
  - change (transform (r :: df)) with (add_features r :: transform df).
    rewrite !value_counts_cons. cbn [value_category add_features].
    set (ppc := Num.round2 (Num.div (price r) (carat r))).
    split.
    + destruct (categorise_cases ppc) as [-> | [-> | ->]];
        repeat match goal with
        | |- context [string_dec ?a ?b] =>
            destruct (string_dec a b); try discriminate; try congruence
        end; simpl; lia.
    + intros c H1 H2 H3. rewrite value_counts_cons, (IHnone c H1 H2 H3).
      cbn [value_category add_features]. fold ppc.
      destruct (string_dec (categorise ppc) c) as [E|]; [|reflexivity].
      destruct (categorise_cases ppc) as [E' | [E' | E']]; congruence.
Qed.

Lemma value_counts_partition_witness :
  Analyse.value_counts (transform example_rows) "Fancy" = 0%nat.
Proof.
  apply (value_counts_partition example_rows); discriminate.
Defined.

Ltac compare_all :=
  repeat match goal with
  | |- context [Num.Qc_ltb ?a ?b] => destruct (Num.Qc_ltb a b) eqn:?
  end.

(** X8: [categorise] is monotone: a row with a price per carat no larger
    than that of a Budget row is Budget, and a row with a price per carat
    no smaller than that of a Premium row is Premium. *)
Theorem categorise_monotone (a b : num) :
  Num.leb a b = true ->
  (categorise b = "Budget" -> categorise a = "Budget") /\
  (categorise a = "Premium" -> categorise b = "Premium").
Proof.
  intros H.
  destruct a as [| |p|], b as [| |q|]; try discriminate H;
    try (split; intros E; solve [reflexivity | discriminate E]).
  unfold categorise, Num.of_Z; cbn [Num.ltb Num.leb] in *.
  compare_all; split; intros E;
    first [reflexivity | discriminate E | order_absurd].
Qed.

Lemma categorise_monotone_witness :
  categorise (Num.of_Z 7200) = "Premium".
Proof.
  apply (categorise_monotone (Num.of_Z 5000) (Num.of_Z 7200)).
  - vm_compute. reflexivity.
  - vm_compute. reflexivity.
Defined.

Lemma pd_cut_none_iff p :
  Num.ltb zero p = true ->
  (pd_cut p = None <-> Num.ltb (Num.of_Z 5000) p = true).
Proof.
  destruct p as [| |q|]; intros H; try discriminate H.
  - unfold pd_cut, bins, zero, Num.of_Z in *.
    cbn [searchsorted_left Num.ltb Num.isna orb] in *.
    compare_all; cbn; split; intros E;
      first [reflexivity | discriminate E | order_absurd].
  - split; reflexivity.
Qed.

(** X9: in a cleaned and transformed frame the price band is missing
    exactly for the rows priced above 5000; every other row has one of the
    four labels. *)
Theorem price_band_missing_iff (raw : table) (x : xrow) :
  In x (transform (clean raw)) ->
  (price_band x = None <-> Num.ltb (Num.of_Z 5000) (price x) = true) /\
  (price_band x <> None -> In (price_band x) (map Some labels)).
Proof.
  intros Hx. apply transform_In in Hx. destruct Hx as (r & Hr & ->).
  apply clean_In in Hr. destruct Hr as [(_ & Hp & _) _].
  cbn [price_band add_features base]. split; [now apply pd_cut_none_iff|].
  unfold pd_cut.
  destruct (Num.isna (price r) || _ || _)%bool; [congruence|].
  intros Hne.
  destruct (nth_error labels (searchsorted_left bins (price r) - 1))
    as [l|] eqn:E; [|congruence].
  apply in_map. eapply nth_error_In, E.
Qed.

Lemma price_band_missing_iff_witness :
  price_band (add_features ideal_row) = None <->
  Num.ltb (Num.of_Z 5000) (price (add_features ideal_row)) = true.
Proof.
  apply (price_band_missing_iff example_rows_distinct (add_features ideal_row)).
  vm_compute. left. reflexivity.
Defined.

(** ** Sign of the derived numbers *)

Module SignFacts.
Import Num.

Lemma rint_nonneg x : (0 <= x)%Q -> (0 <= rint x)%Z.
Proof.
  intros Hx. unfold rint.
  assert (Hf : (0 <= Qfloor x)%Z).
  { change 0%Z with (Qfloor 0). now apply Qfloor_resp_le. }
  destruct (x - inject_Z (Qfloor x) ?= 1 # 2)%Q; [|lia|lia].
  destruct (Z.even (Qfloor x)); lia.
Qed.

Lemma leb_zero_fin q : (0 <= this q)%Q -> leb (of_Z 0) (Fin q) = true.
Proof.
  intros H. unfold of_Z; cbn [leb]. unfold Qc_leb, Qccompare.
  destruct (this (Q2Qc (inject_Z 0)) ?= this q)%Q eqn:E; try reflexivity.
  exfalso. apply Qgt_alt in E. rewrite NumFacts.this_of_Z in E.
  unfold inject_Z in E. lra.
Qed.

Lemma ltb_zero_fin q : ltb (of_Z 0) (Fin q) = true -> (0 < this q)%Q.
Proof.
  unfold of_Z; cbn [ltb]. intros H. apply NumFacts.Qc_ltb_true in H.
  rewrite NumFacts.this_of_Z in H. exact H.
Qed.

Lemma this_div p c : (this (p / c)%Qc == this p / this c)%Q.
Proof.
  unfold Qcdiv, Qcmult, Qcinv, Q2Qc; cbn [this].
  rewrite !Qred_correct. reflexivity.
Qed.

Lemma div_nonneg p c :
  (0 <= this p)%Q -> (0 < this c)%Q -> (0 <= this (p / c)%Qc)%Q.
Proof.
  intros Hp Hc. rewrite this_div. apply Qle_shift_div_l; [exact Hc|]. lra.
Qed.

Lemma round2_nonneg q :
  (0 <= this q)%Q -> leb (of_Z 0) (round2 (Fin q)) = true.
Proof.
  intros H. cbn [round2]. apply leb_zero_fin. cbn [this Q2Qc].
  rewrite Qred_correct.
  assert (Hz : (0 <= rint (this q * 100))%Z) by (apply rint_nonneg; lra).
  apply Qle_shift_div_l; [reflexivity|].
  rewrite Qmult_0_l. change 0%Q with (inject_Z 0). now rewrite <- Zle_Qle.
Qed.

End SignFacts.

(** X10: for a cleaned frame the price per carat is never negative; it is
    missing only for a row whose price and carat are both infinite. *)
Theorem price_per_carat_not_negative (raw : table) (x : xrow) :
  In x (transform (clean raw)) ->
  Num.leb zero (price_per_carat x) = true \/
  (price_per_carat x = NaN /\ price x = PosInf /\ carat x = PosInf).
Proof.
  intros Hx. apply transform_In in Hx. destruct Hx as (r & Hr & ->).
  apply clean_In in Hr. destruct Hr as [(_ & Hp & Hc) _].
  cbn [price_per_carat add_features base]. unfold zero in *.
  destruct (price r) as [| |p|] eqn:Ep; try discriminate Hp;
    destruct (carat r) as [| |c|] eqn:Ec; try discriminate Hc.
  - left. rewrite (RoundFacts.div_positive p c Hc).
    apply SignFacts.round2_nonneg, SignFacts.div_nonneg.
    + apply Qlt_le_weak, SignFacts.ltb_zero_fin, Hp.
    + apply SignFacts.ltb_zero_fin, Hc.
  - left. cbn [Num.div]. apply SignFacts.round2_nonneg. cbn. lra.
  - left. cbn [Num.div].
    assert (E : Num.Qc_leb 0 c = true).
    { unfold Num.of_Z in Hc; cbn [Num.ltb] in Hc.
      unfold Num.Qc_leb, Num.Qc_ltb in *.
      change (Q2Qc (inject_Z 0)) with 0%Qc in Hc.
      destruct (0 ?= c)%Qc; congruence. }
    rewrite E. reflexivity.
  - right. repeat split.
Qed.

Lemma price_per_carat_not_negative_witness :
  Num.leb zero (price_per_carat (add_features ideal_row)) = true \/
  (price_per_carat (add_features ideal_row) = NaN /\
   price (add_features ideal_row) = PosInf /\
   carat (add_features ideal_row) = PosInf).
Proof.
  apply (price_per_carat_not_negative example_rows_distinct).
  vm_compute. left. reflexivity.
Defined.

(** ** Group means *)

Module MeanFacts.
Import Num Analyse.

Lemma this_plus p q : (this (p + q)%Qc == this p + this q)%Q.
Proof. unfold Qcplus, Q2Qc; cbn [this]. apply Qred_correct. Qed.

Lemma ltb_zero_intro q : (0 < this q)%Q -> ltb (of_Z 0) (Fin q) = true.
Proof.
  intros H. unfold of_Z; cbn [ltb]. unfold Qc_ltb, Qccompare.
  assert (E : (this (Q2Qc (inject_Z 0)) ?= this q)%Q = Lt).
  { apply Qlt_alt. rewrite NumFacts.this_of_Z. exact H. }
  now rewrite E.
Qed.

Lemma positive_cases v :
  ltb (of_Z 0) v = true ->
  v = PosInf \/ exists q, v = Fin q /\ (0 < this q)%Q.
Proof.
  destruct v as [| |q|]; intros H; try discriminate H.
  - right. exists q. split; [reflexivity|]. now apply SignFacts.ltb_zero_fin.
  - now left.
Qed.

Lemma add_positive a y :
  (a = of_Z 0 \/ ltb (of_Z 0) a = true) -> ltb (of_Z 0) y = true ->
  ltb (of_Z 0) (add a y) = true.
Proof.
  intros Ha Hy.
  destruct (positive_cases y Hy) as [->|(q & -> & Hq)].
  - destruct Ha as [->|Ha]; [reflexivity|].
    destruct (positive_cases a Ha) as [->|(p & -> & _)]; reflexivity.
  - destruct Ha as [->|Ha].
    + cbn [add of_Z]. apply ltb_zero_intro. rewrite this_plus.
      rewrite NumFacts.this_of_Z. unfold inject_Z. lra.
    + destruct (positive_cases a Ha) as [->|(p & -> & Hp)]; [reflexivity|].
      cbn [add]. apply ltb_zero_intro. rewrite this_plus. lra.
Qed.

Lemma fold_add_positive ys a :
  ltb (of_Z 0) a = true ->
  Forall (fun y => ltb (of_Z 0) y = true) ys ->
  ltb (of_Z 0) (fold_left add ys a) = true.
Proof.
  revert a; induction ys as [|y ys IH]; intros a Ha Hys; [exact Ha|].
  inversion Hys as [|? ? Hy Hys']; subst. cbn [fold_left].
  apply IH; [|exact Hys']. apply add_positive; [now right|exact Hy].
Qed.

Lemma length_positive {A} (x : A) l :
  ltb (of_Z 0) (of_Z (Z.of_nat (List.length (x :: l)))) = true.
Proof.
  unfold of_Z at 2. apply ltb_zero_intro. rewrite NumFacts.this_of_Z.
  change 0%Q with (inject_Z 0). rewrite <- Zlt_Qlt. simpl List.length. lia.
Qed.

Lemma div_positive_positive s n :
  ltb (of_Z 0) s = true -> ltb (of_Z 0) n = true -> is_finite n = true ->
  ltb (of_Z 0) (div s n) = true.
Proof.
  intros Hs Hn Hfin. destruct n as [| |c|]; try discriminate Hfin.
  pose proof (SignFacts.ltb_zero_fin c Hn) as Hc.
  destruct (positive_cases s Hs) as [->|(p & -> & Hp)].
  - cbn [div].
    assert (E : Qc_leb 0 c = true).
    { unfold of_Z in Hn; cbn [ltb] in Hn. unfold Qc_leb, Qc_ltb in *.
      change (Q2Qc (inject_Z 0)) with 0%Qc in Hn.
      destruct (0 ?= c)%Qc; congruence. }
    now rewrite E.
  - rewrite (RoundFacts.div_positive p c Hn). apply ltb_zero_intro.
    rewrite SignFacts.this_div. now apply Qlt_shift_div_l; [|lra].
Qed.

(** The mean of a non-empty series of positive values is positive. *)
Lemma mean_positive x xs :
  Forall (fun y => ltb (of_Z 0) y = true) (x :: xs) ->
  ltb (of_Z 0) (mean (x :: xs)) = true.
Proof.
  intros H. unfold mean.
  assert (Hf : filter (fun v => negb (isna v)) (x :: xs) = x :: xs).
  { apply filter_fix. intros v Hv. rewrite Forall_forall in H.
    specialize (H v Hv). now destruct v. }
  rewrite Hf. apply div_positive_positive.
  - inversion H as [|? ? Hx Hxs]; subst. cbn [fold_left].
    apply fold_add_positive; [|exact Hxs].
    apply add_positive; [now left|exact Hx].
  - apply length_positive.
  - reflexivity.
Qed.

Lemma key_is_eq k c : key_is k c = true <-> c = Some k.
Proof.
  destruct c as [s|]; simpl; [|split; discriminate].
  rewrite String.eqb_eq. split; congruence.
Qed.

End MeanFacts.

Lemma prices_positive raw (grp : xtable) :
  incl grp (transform (clean raw)) ->
  Forall (fun y => Num.ltb (Num.of_Z 0) y = true)
         (map (fun r : xrow => price r) grp).
Proof.
  intros H. apply Forall_forall. intros y Hy.
  apply in_map_iff in Hy. destruct Hy as (x & <- & Hx).
  apply H, transform_In in Hx. destruct Hx as (r & Hr & ->).
  apply clean_In in Hr. apply Hr.
Qed.

Lemma group_incl (df : xtable) k :
  incl (filter (fun r : xrow => Analyse.key_is k (cut r)) df) df.
Proof. intros x Hx. now apply filter_In in Hx. Qed.

Lemma group_empty_iff (df : xtable) k :
  filter (fun r : xrow => Analyse.key_is k (cut r)) df = [] <->
  (forall x : xrow, In x df -> cut x <> Some k).
Proof.
  split.
  - intros E x Hx Hc.
    assert (Hin : In x (filter (fun r : xrow => Analyse.key_is k (cut r)) df))
      by (apply filter_In; split; [exact Hx|now apply MeanFacts.key_is_eq]).
    rewrite E in Hin. exact Hin.
  - intros H.
    destruct (filter (fun r : xrow => Analyse.key_is k (cut r)) df)
      as [|x grp] eqn:E; [reflexivity|].
    assert (Hin : In x (filter (fun r : xrow => Analyse.key_is k (cut r)) df))
      by (rewrite E; now left).
    apply filter_In in Hin. destruct Hin as [Hx Hk].
    apply MeanFacts.key_is_eq in Hk. now apply H in Hx.
Qed.

(** X11: the bars of the cut chart follow the fixed ranking Fair, Good,
    Very Good, Premium, Ideal; a cut outside the ranking gets no bar, and
    on a cleaned frame every bar is the mean price of a cut that is
    present, a positive number and never the NaN that [reindex] puts at
    an absent label. *)
Theorem cut_bars_follow_ranking (raw : table) :
  subseq (map fst (Visualise.cut_avg (transform (clean raw))))
         Visualise.cut_order /\
  (forall k v, In (k, v) (Visualise.cut_avg (transform (clean raw))) ->
     Visualise.mean_price_of_cut (transform (clean raw)) k = Some v /\
     Num.ltb zero v = true).
Proof.
  unfold Visualise.cut_avg, Visualise.reindex. split.
  - rewrite map_map. cbn [fst]. rewrite map_id. apply subseq_filter.
  - intros k v H. apply in_map_iff in H. destruct H as (k' & E & Hk).
    inversion E; subst k'. clear E. unfold Visualise.mean_price_of_cut in *.
    pose proof (group_incl (transform (clean raw)) k) as Hincl.
    destruct (filter (fun r : xrow => Analyse.key_is k (cut r))
                     (transform (clean raw))) as [|x grp] eqn:Eg.
    + subst v. apply filter_In in Hk. destruct Hk as [_ Hk].
      unfold Visualise.cut_in_unique in Hk. apply existsb_exists in Hk.
      destruct Hk as (y & Hy & Hc). exfalso.
      apply MeanFacts.key_is_eq in Hc.
      apply (proj1 (group_empty_iff (transform (clean raw)) k) Eg y Hy Hc).
    + subst v. split; [reflexivity|].
      apply (MeanFacts.mean_positive (price x)
               (map (fun r : xrow => price r) grp)).
      apply (prices_positive raw (x :: grp) Hincl).
Qed.

Lemma cut_bars_follow_ranking_witness :
  Visualise.mean_price_of_cut (transform (clean example_rows_distinct))
                              "Ideal" = Some (Num.of_Z 3000) /\
  Num.ltb zero (Num.of_Z 3000) = true.
Proof.
  apply (cut_bars_follow_ranking example_rows_distinct).
  unfold Visualise.cut_avg, Visualise.reindex.
  apply in_map_iff. exists "Ideal". split.
  - f_equal; try (apply fin_eq; vm_compute; reflexivity).
  - vm_compute. right. left. reflexivity.
Defined.

Lemma round2_of_positive v :
  Num.ltb (Num.of_Z 0) v = true ->
  Num.leb (Num.of_Z 0) (Num.round2 v) = true.
Proof.
  intros H. destruct (MeanFacts.positive_cases v H) as [->|(q & -> & Hq)].
  - reflexivity.
  - apply SignFacts.round2_nonneg. lra.
Qed.

(** X12: in the printed table of average price by cut, a cut has an entry
    exactly when some row of the frame has that cut, and on a cleaned frame
    every entry is a number that is neither missing nor negative. *)
Theorem average_price_by_cut_defined (raw : table) :
  exists result : run,
    pipeline raw = Returns result /\
    forall k,
      (Analyse.price_by_cut (printed result) k = None <->
       forall x : xrow, In x (df_export result) -> cut x <> Some k) /\
      (forall v, Analyse.price_by_cut (printed result) k = Some v ->
                 Num.leb zero v = true).
Proof.
  eexists. split; [reflexivity|].
  cbn [printed df_export Analyse.analyse Analyse.price_by_cut].
  intros k. unfold Analyse.groupby_mean. cbv beta.
  pose proof (group_empty_iff (transform (clean raw)) k) as Hempty.
  pose proof (group_incl (transform (clean raw)) k) as Hincl.
  destruct (filter (fun r : xrow => Analyse.key_is k (cut r))
                   (transform (clean raw))) as [|x grp] eqn:Eg.
  - split; [|discriminate]. split; [intros _; now apply Hempty|reflexivity].
  - split.
    + split; [discriminate|]. intros H. apply Hempty in H. discriminate H.
    + intros v E. inversion E; subst v. apply round2_of_positive.
      apply (MeanFacts.mean_positive (price x)
               (map (fun r : xrow => price r) grp)).
      apply (prices_positive raw (x :: grp) Hincl).
Qed.

Lemma average_price_by_cut_defined_witness :
  exists result : run,
    pipeline example_rows_distinct = Returns result /\
    Analyse.price_by_cut (printed result) "Fair" = None /\
    Num.leb zero (Num.round2 (Num.of_Z 3000)) = true.
Proof.
  destruct (average_price_by_cut_defined example_rows_distinct)
    as (result & Hrun & H).
  exists result. split; [exact Hrun|].
  injection Hrun as <-. split.
  - apply (H "Fair"). cbn [df_export].
    intros x Hx Hc. vm_compute in Hx.
    destruct Hx as [<-|[<-|[]]]; discriminate Hc.
  - apply (proj2 (H "Ideal")). cbn [printed Analyse.analyse Analyse.price_by_cut].
    vm_compute. f_equal; try (apply fin_eq; vm_compute; reflexivity).
Defined.

Lemma survivors_none raw :
  (forall r, In r raw -> ~ valid r) -> survivors raw = [].
Proof.
  intros H. destruct (survivors raw) as [|r rest] eqn:E; [reflexivity|].
  assert (Hr : In r (survivors raw)) by (rewrite E; now left).
  apply survivors_In in Hr. destruct Hr as [Hin Hv].
  now apply H in Hin.
Qed.

(** X13: when no row of the input is complete with a positive price and a
    positive carat (an empty input included), the cleaned frame is empty,
    every category count is zero, no group mean is printed and the cut
    chart has no bar; and if drawing the charts of an empty frame raises,
    the run ends with that exception, before EXPORT. *)
Theorem run_with_no_valid_row (raw : table) :
  (forall r, In r raw -> ~ valid r) ->
  clean raw = [] /\
  Visualise.cut_avg (transform (clean raw)) = [] /\
  (forall k,
     Analyse.value_counts (transform (clean raw)) k = 0%nat /\
     Analyse.price_by_cut (Analyse.analyse (transform (clean raw))) k = None /\
     Analyse.ppc_by_color (Analyse.analyse (transform (clean raw))) k = None) /\
  (forall visualise e,
     visualise [] = Raises e -> script visualise raw = Raises e).
Proof.
  intros H.
  assert (E : clean raw = [])
    by (rewrite clean_survivors, (survivors_none raw H); reflexivity).
  rewrite E. split; [reflexivity|]. split; [reflexivity|].
  split; [intros k; repeat split|].
  intros visualise e Hv. unfold script, transformer. rewrite E.
  change (transform []) with (@nil xrow). now rewrite Hv.
Qed.

Lemma run_with_no_valid_row_witness :
  clean [zero_carat_row] = [] /\
  script sample_visualise [zero_carat_row] = Raises ValueError.
Proof.
  destruct (run_with_no_valid_row [zero_carat_row]) as (Hc & _ & _ & Hs).
  - intros r [<-|[]] (_ & _ & Hc). vm_compute in Hc. discriminate Hc.
  - split; [exact Hc|]. apply Hs. reflexivity.
Defined.
